(** * Physical layouts and the WebAssembly execution context of mutable

    A shallow embedding of

    - the PAX-in-PAX layout that [examples/pax_example.cpp] builds, with the
      layout tree and its address resolution, and
    - [include/mutable/backend/WebAssembly.hpp]: [WasmEngine], its
      [WasmContext] and the registry [contexts_] of live contexts.

    Unsigned C++ integers are numbers in [N]; a fixed width is written out
    as a reduction modulo a power of two where the code stores into it. *)

From stdpp Require Import base numbers option list sorting gmap strings.

Local Open Scope N_scope.
Set Warnings "-register-all".

(** ** Layout trees *)

Module storage.

(** The vector/scalar category of [Type::Get_*] ([catalog/Type.hpp]). *)
Inductive category_t := TY_Scalar | TY_Vector.

(** The types that [create_custom_pax_layout] stores in leaves, as the
    factory calls [Type::Get_Integer], [Type::Get_Char], [Type::Get_Boolean]
    and [Type::Get_Double] name them. *)
Inductive Ty :=
| Get_Integer (category : category_t) (num_bytes : N)
| Get_Char (category : category_t) (length : N)
| Get_Boolean (category : category_t)
| Get_Double (category : category_t).

(** Modelled from the spec: the layout tree of [storage/DataLayout.hpp], which
    is not among the sources.  A node is a [Leaf] (one column store of one
    attribute) or a [Group] (a repeating block of [capacity] tuples that is
    [span_bits] wide and starts [base_offset_bits] into its parent). *)
Inductive LayoutNode :=
| Leaf (type : Ty) (attribute_index offset_bits stride_bits : N)
| Group (capacity base_offset_bits span_bits : N) (children : list LayoutNode).

(** Modelled from the spec: a [DataLayout] is a tuple capacity and a root
    group; the root is missing until [DataLayout::add_inode] has made it. *)
Record DataLayout := mkDataLayout {
  num_tuples : N;
  root : option LayoutNode;
}.

(** [storage::DataLayout layout(num_tuples)]. *)
Definition DataLayout_new (num_tuples : N) : DataLayout :=
  {| num_tuples := num_tuples; root := None |}.

(** A reference to a group inside a layout ([auto &outer_pax = ...]): the
    positions of the children to follow from the root. *)
Definition handle := list nat.

(** The attributes that the leaves below a node address, in insertion order. *)
Fixpoint attributes (n : LayoutNode) : list N :=
  match n with
  | Leaf _ a _ _ => [a]
  | Group _ _ _ children =>
      (fix go (l : list LayoutNode) : list N :=
         match l with
         | [] => []
         | c :: l' => attributes c ++ go l'
         end) children
  end.

Definition DataLayout_attributes (layout : DataLayout) : list N :=
  from_option attributes [] (root layout).

(** Rewrites the node that [h] refers to; fails when [h] leaves the tree. *)
Fixpoint update_at (h : handle) (f : LayoutNode → option LayoutNode)
    (n : LayoutNode) : option LayoutNode :=
  match h with
  | [] => f n
  | i :: h' =>
      match n with
      | Leaf _ _ _ _ => None
      | Group capacity base span children =>
          child ← children !! i;
          child' ← update_at h' f child;
          Some (Group capacity base span (<[i := child']> children))
      end
  end.

(** The node that [h] refers to. *)
Fixpoint node_at (h : handle) (n : LayoutNode) : option LayoutNode :=
  match h with
  | [] => Some n
  | i :: h' =>
      match n with
      | Leaf _ _ _ _ => None
      | Group _ _ _ children => child ← children !! i; node_at h' child
      end
  end.

(** Modelled from the spec: [layout.add_inode(num_tuples, stride_in_bits)]
    makes the root group, which has no offset of its own, and returns a
    reference to it. *)
Definition DataLayout_add_inode (capacity span_bits : N) (layout : DataLayout)
    : option (handle * DataLayout) :=
  match root layout with
  | Some _ => None
  | None =>
      Some ([], {| num_tuples := num_tuples layout;
                   root := Some (Group capacity 0 span_bits []) |})
  end.

(** Modelled from the spec ([add_group]): [parent.add_inode(capacity,
    base_offset_bits, span_bits)] appends a group to [parent] and returns a
    reference to it.  A child that does not lie within the span of its parent
    is a contract violation; construction fails. *)
Definition add_inode (parent : handle) (capacity base_offset_bits span_bits : N)
    (layout : DataLayout) : option (handle * DataLayout) :=
  r ← root layout;
  p ← node_at parent r;
  match p with
  | Leaf _ _ _ _ => None
  | Group _ _ parent_span children =>
      if bool_decide (base_offset_bits + span_bits ≤ parent_span) then
        r' ← update_at parent
               (λ n, match n with
                     | Group c b s ch =>
                         Some (Group c b s
                                 (ch ++ [Group capacity base_offset_bits span_bits []]))
                     | Leaf _ _ _ _ => None
                     end) r;
        Some (parent ++ [length children],
              {| num_tuples := num_tuples layout; root := Some r' |})
      else None
  end.

(** Modelled from the spec: [group.add_leaf(type, attribute_index,
    offset_bits, stride_bits)] appends a leaf to [group].  The leaf must keep
    [stride_bits × capacity] within the span of its group, and no attribute
    may be stored twice in one layout. *)
Definition add_leaf (group : handle) (type : Ty)
    (attribute_index offset_bits stride_bits : N) (layout : DataLayout)
    : option DataLayout :=
  r ← root layout;
  g ← node_at group r;
  match g with
  | Leaf _ _ _ _ => None
  | Group capacity _ span _ =>
      if bool_decide (offset_bits + stride_bits * capacity ≤ span)
         && bool_decide (attribute_index ∉ attributes r) then
        r' ← update_at group
               (λ n, match n with
                     | Group c b s ch =>
                         Some (Group c b s
                                 (ch ++ [Leaf type attribute_index offset_bits stride_bits]))
                     | Leaf _ _ _ _ => None
                     end) r;
        Some {| num_tuples := num_tuples layout; root := Some r' |}
      else None
  end.

(** Modelled from the spec: the two numbers a group derives from a tuple
    index [t], [outer = t / group.capacity] (integer division), the
    repetition of the block the tuple falls into, and
    [local = t mod group.capacity], its index within that block. *)
Definition outer_block (capacity t : N) : N := t / capacity.
Definition local_index (capacity t : N) : N := t mod capacity.

(** Modelled from the spec: the bit offset that a group contributes,
    [group.base_offset_bits + outer × group.span_bits]; it is where
    repetition [outer] of the group starts. *)
Definition block_offset (base_offset_bits span_bits outer : N) : N :=
  base_offset_bits + outer * span_bits.

(** The first result that [f] has on the elements of a list, in order. *)
Definition first_some {A B} (f : A → option B) : list A → option B :=
  fix descend (l : list A) : option B :=
    match l with
    | [] => None
    | c :: l' =>
        match f c with
        | Some x => Some x
        | None => descend l'
        end
    end.

(** Modelled from the spec: address resolution.  A group splits the tuple
    index into [outer] and [local], contributes the offset of its block
    [outer], and descends with [local] into the first child (in insertion
    order) that holds the attribute; a leaf adds its own offset and
    [local × stride_bits].  There is no address for an attribute that no leaf
    holds, and none below a group without capacity. *)
Fixpoint resolve (a t : N) (n : LayoutNode) : option N :=
  match n with
  | Leaf _ attribute_index offset_bits stride_bits =>
      if bool_decide (attribute_index = a)
      then Some (offset_bits + t * stride_bits)
      else None
  | Group capacity base_offset_bits span_bits children =>
      if bool_decide (capacity = 0) then None
      else
        let local := local_index capacity t in
        let outer := outer_block capacity t in
        addr ← first_some (resolve a local) children;
        Some (block_offset base_offset_bits span_bits outer + addr)
  end.

Definition DataLayout_resolve (layout : DataLayout) (a t : N) : option N :=
  r ← root layout; resolve a t r.

(** Modelled from the spec: the stride of the leaf that address resolution
    ends in for attribute [a], which is the width of the slot that one tuple
    has in the column of [a]. *)
Fixpoint stride_of (a : N) (n : LayoutNode) : option N :=
  match n with
  | Leaf _ attribute_index _ stride_bits =>
      if bool_decide (attribute_index = a) then Some stride_bits else None
  | Group capacity _ _ children =>
      if bool_decide (capacity = 0) then None
      else first_some (stride_of a) children
  end.

Definition DataLayout_stride_of (layout : DataLayout) (a : N) : option N :=
  r ← root layout; stride_of a r.

End storage.

(** ** The example layout of [examples/pax_example.cpp] *)

Module pax_example.
Import storage.

(** [create_custom_pax_layout]: ids | name, is_manager | age, salary. *)
Definition create_custom_pax_layout : option DataLayout :=
  let num_tuples := 1000 in
  let layout := DataLayout_new num_tuples in
  '(outer_pax, layout) ← DataLayout_add_inode 256 (64 * 1024 * 8) layout;
  '(ids_pax, layout) ← add_inode outer_pax 256 0 (256 * 4 * 8) layout;
  layout ← add_leaf ids_pax (Get_Integer TY_Vector 4) 0 0 32 layout;
  '(name_mgr_pax, layout) ←
    add_inode outer_pax 256 (256 * 4 * 8) (256 * (50 + 1) * 8) layout;
  layout ← add_leaf name_mgr_pax (Get_Char TY_Vector 50) 1 0 400 layout;
  layout ← add_leaf name_mgr_pax (Get_Boolean TY_Vector) 4 (256 * 400) 8 layout;
  '(nums_pax, layout) ←
    add_inode outer_pax 256 (256 * (4 + 50 + 1) * 8) (256 * (4 + 8) * 8) layout;
  layout ← add_leaf nums_pax (Get_Integer TY_Vector 4) 2 0 32 layout;
  layout ← add_leaf nums_pax (Get_Double TY_Vector) 3 (256 * 32) 64 layout;
  Some layout.

(** The tree that the calls above leave behind. *)
Definition custom_pax_root : LayoutNode :=
  Group 256 0 524288
    [ Group 256 0 8192 [Leaf (Get_Integer TY_Vector 4) 0 0 32];
      Group 256 8192 104448
        [Leaf (Get_Char TY_Vector 50) 1 0 400;
         Leaf (Get_Boolean TY_Vector) 4 102400 8];
      Group 256 112640 24576
        [Leaf (Get_Integer TY_Vector 4) 2 0 32;
         Leaf (Get_Double TY_Vector) 3 8192 64] ].

(** Where the column of an attribute starts within an outer PAX block, and
    its stride, as the arguments of the [add_inode] and [add_leaf] calls of
    [create_custom_pax_layout] give them: the offset of the inner block plus
    the offset of the leaf. *)
Definition custom_pax_column (a : N) : option (N * N) :=
  if bool_decide (a = 0) then Some (0 + 0, 32)
  else if bool_decide (a = 1) then Some (256 * 4 * 8 + 0, 400)
  else if bool_decide (a = 4) then Some (256 * 4 * 8 + 256 * 400, 8)
  else if bool_decide (a = 2) then Some (256 * (4 + 50 + 1) * 8 + 0, 32)
  else if bool_decide (a = 3) then Some (256 * (4 + 50 + 1) * 8 + 256 * 32, 64)
  else None.

End pax_example.

Import storage pax_example.

(** ** [WasmEngine] *)

Module WasmEngine.

(** the size of a WebAssembly memory page, 64 KiB. *)
Definition WASM_PAGE_SIZE : N := N.shiftl 1 16.
(** The maximum memory of a WebAssembly module:  2^32 - 2^16 bytes. *)
Definition WASM_MAX_MEMORY : N := N.shiftl 1 32 - N.shiftl 1 16.
(** The alignment that is suitable for all built-in types. *)
Definition WASM_ALIGNMENT : N := 8.

(** Storing a number into a [uint32_t]. *)
Definition uint32_t (x : N) : N := x mod 2 ^ 32.

(** [enum config_t : uint64_t]: a set of flags. *)
Definition config_t := N.
(** map guard pages with PROT_NONE to trap any accesses *)
Definition TRAP_GUARD_PAGES : config_t := 1.

(** Modelled from the spec: [memory::AddressSpace] ([util/memory.hpp]), a
    reserved range of [size] bytes.  Of its contents the model keeps the
    extents [(offset, bytes)] that were mapped into it and the offsets of the
    pages that were made inaccessible, latest first. *)
Record AddressSpace := mkAddressSpace {
  size : N;
  mapped : list (N * N);
  guard_pages : list N;
}.

Definition AddressSpace_new (size : N) : AddressSpace :=
  {| size := size; mapped := []; guard_pages := [] |}.

(** A [WasmContext] holds associated information of a WebAssembly module
    instance.  [plan] and the elements of [indexes] are references; what they
    refer to is left open.  [result_set_factory] plays no part below and is
    left out. *)
Record WasmContext (MatchBase IndexBase : Type) := mkWasmContext {
  config_ : config_t;
  id : N;
  plan : MatchBase;
  vm : AddressSpace;
  heap : N;
  indexes : list IndexBase;
}.
Arguments mkWasmContext {_ _} _ _ _ _ _ _.
Arguments config_ {_ _} _.
Arguments id {_ _} _.
Arguments plan {_ _} _.
Arguments vm {_ _} _.
Arguments heap {_ _} _.
Arguments indexes {_ _} _.

(** Modelled from the spec: what a table or an index occupies once it is
    mapped, in bytes, as its layout (its serialised form) dictates.  The
    headers that compute it are not among the sources. *)
Class Footprint (A : Type) := footprint : A → N.

(** The operations that a caller may apply to a context it holds. *)
Inductive context_op (Table IndexBase : Type) :=
| MapTable (table : Table)
| MapIndex (index : IndexBase)
| InstallGuardPage
| AddIndex (index : IndexBase).
Arguments MapTable {_ _} _.
Arguments MapIndex {_ _} _.
Arguments InstallGuardPage {_ _}.
Arguments AddIndex {_ _} _.

Section WasmContext.
Context {MatchBase IndexBase Table : Type}.
Context `{!Footprint Table, !Footprint IndexBase}.

#[local] Abbreviation WasmContext := (WasmContext MatchBase IndexBase).

(** Modelled from the spec: the constructor, whose body is not among the
    sources.  It keeps its arguments and reserves [size] bytes; [heap] has
    its default member initialiser [0] and [indexes] is empty. *)
Definition WasmContext_new (id : N) (plan : MatchBase) (configuration : config_t)
    (size : N) : WasmContext :=
  {| config_ := configuration; id := id; plan := plan;
     vm := AddressSpace_new size; heap := 0; indexes := [] |}.

(** [bool config(config_t cfg) const { return bool(cfg & config_); }] *)
Definition config (cfg : config_t) (ctx : WasmContext) : bool :=
  negb (N.land cfg (config_ ctx) =? 0).

Definition set_heap (h : N) (ctx : WasmContext) : WasmContext :=
  {| config_ := config_ ctx; id := id ctx; plan := plan ctx; vm := vm ctx;
     heap := h; indexes := indexes ctx |}.

Definition set_vm (v : AddressSpace) (ctx : WasmContext) : WasmContext :=
  {| config_ := config_ ctx; id := id ctx; plan := plan ctx; vm := v;
     heap := heap ctx; indexes := indexes ctx |}.

(** The next page boundary above [x]: the start of the page that follows
    the one [x] lies in. *)
Definition next_page_boundary (x : N) : N :=
  (x / WASM_PAGE_SIZE + 1) * WASM_PAGE_SIZE.

(** Modelled from the spec: [install_guard_page()] advances [heap] to the
    next page boundary and marks that page, the one that ends at the
    boundary, inaccessible.  From a page-aligned [heap] the page starts at
    the current [heap] and the cursor moves by one page, which is what the
    header says of it.  The boundary is stored into the [uint32_t heap]. *)
Definition install_guard_page (ctx : WasmContext) : WasmContext :=
  let v := vm ctx in
  let boundary := next_page_boundary (heap ctx) in
  let ctx := set_vm {| size := size v; mapped := mapped v;
                       guard_pages :=
                         boundary - WASM_PAGE_SIZE :: guard_pages v |} ctx in
  set_heap (uint32_t boundary) ctx.

(** Modelled from the spec: the pattern that [map_table] and [map_index]
    share.  It places [bytes] bytes at [address_space[heap .. heap + bytes)],
    advances [heap] by [bytes] and, when [TRAP_GUARD_PAGES] is set in the
    configuration, installs one guard page behind the mapped region.  It
    returns the offset of the mapped region.  The spec describes the
    operation for a region, and a guard page, that lie within the address
    space; see [within_space]. *)
Definition map_bytes (bytes : N) (ctx : WasmContext) : N * WasmContext :=
  let off := heap ctx in
  let v := vm ctx in
  let ctx := set_vm {| size := size v; mapped := (off, bytes) :: mapped v;
                       guard_pages := guard_pages v |} ctx in
  let ctx := set_heap (uint32_t (heap ctx + bytes)) ctx in
  let ctx := if config TRAP_GUARD_PAGES ctx then install_guard_page ctx else ctx in
  (off, ctx).

(** Modelled from the spec: [uint32_t map_table(const Table &table)] maps
    the storage footprint of the table. *)
Definition map_table (table : Table) (ctx : WasmContext) : N * WasmContext :=
  map_bytes (footprint table) ctx.

(** Modelled from the spec: [uint32_t map_index(const idx::IndexBase &index)],
    the same pattern for the footprint of an index. *)
Definition map_index (index : IndexBase) (ctx : WasmContext) : N * WasmContext :=
  map_bytes (footprint index) ctx.

(** Adds an index to the [WasmContext] and returns its position in the vector
    as id. *)
Definition add_index (index : IndexBase) (ctx : WasmContext) : N * WasmContext :=
  let ctx' := {| config_ := config_ ctx; id := id ctx; plan := plan ctx;
                 vm := vm ctx; heap := heap ctx;
                 indexes := indexes ctx ++ [index] |} in
  (N.of_nat (length (indexes ctx')) - 1, ctx').

Definition run_op (op : context_op Table IndexBase) (ctx : WasmContext)
    : WasmContext :=
  match op with
  | MapTable table => (map_table table ctx).2
  | MapIndex index => (map_index index ctx).2
  | InstallGuardPage => install_guard_page ctx
  | AddIndex index => (add_index index ctx).2
  end.

Definition run_ops (ops : list (context_op Table IndexBase)) (ctx : WasmContext)
    : WasmContext :=
  foldl (λ c op, run_op op c) ctx ops.

(** The values of [heap] before, between and after the operations [ops]. *)
Fixpoint heap_trace (ops : list (context_op Table IndexBase)) (ctx : WasmContext)
    : list N :=
  match ops with
  | [] => [heap ctx]
  | op :: ops' => heap ctx :: heap_trace ops' (run_op op ctx)
  end.





(** How many [add_index] calls a sequence of operations holds. *)
Fixpoint count_add_index (ops : list (context_op Table IndexBase)) : nat :=
  match ops with
  | [] => 0%nat
  | AddIndex _ :: ops' => S (count_add_index ops')
  | _ :: ops' => count_add_index ops'
  end.

End WasmContext.

(** A caller that adds several indexes, one [add_index] call after the
    other, and keeps the handles it gets in the order of the calls. *)
Fixpoint add_indexes {MatchBase IndexBase : Type} (l : list IndexBase)
    (ctx : WasmContext MatchBase IndexBase)
    : list N * WasmContext MatchBase IndexBase :=
  match l with
  | [] => ([], ctx)
  | index :: l' =>
      let r := add_index index ctx in
      let rs := add_indexes l' r.2 in
      (r.1 :: rs.1, rs.2)
  end.

(** *** Failing assertions *)

(** Modelled from the spec: [M_insist] ([util/macro.hpp]) reports a violated
    condition by an immediate failure from which there is no recovery.  A
    computation over a state [S] either returns a value and the next state,
    or aborts with the message of the assertion that failed. *)
Inductive outcome (A : Type) :=
| Ok (a : A)
| Abort (msg : string).
Arguments Ok {_} _.
Arguments Abort {_} _.

Definition M (S A : Type) : Type := S → outcome (A * S).

#[global] Instance M_ret {S} : MRet (M S) := λ A a s, Ok (a, s).
#[global] Instance M_bind {S} : MBind (M S) := λ A B f m s,
  match m s with
  | Ok (a, s') => f a s'
  | Abort msg => Abort msg
  end.

Definition abort {S A} (msg : string) : M S A := λ _, Abort msg.

(** Reads the state. *)
Definition gets {S A} (f : S → A) : M S A := λ s, Ok (f s, s).

Definition M_insist {S} (cond : bool) (msg : string) : M S () :=
  if cond then mret () else abort msg.

(** *** [std::unordered_map] *)

Section unordered_map.
Context {V : Type}.

(** An iterator is the key of the entry it points to, or [end()]. *)
Definition iterator := option N.

(** [emplace] inserts unless the key is taken; it returns an iterator to the
    entry with that key and whether it inserted. *)
Definition emplace (k : N) (v : V) : M (gmap N V) (N * bool) :=
  λ m, match m !! k with
       | Some _ => Ok ((k, false), m)
       | None => Ok ((k, true), <[k := v]> m)
       end.

(** [try_emplace] with [lazy_construct]: the value is only made when the key
    is free. *)
Definition try_emplace (k : N) (make : () → V) : M (gmap N V) (N * bool) :=
  λ m, match m !! k with
       | Some _ => Ok ((k, false), m)
       | None => Ok ((k, true), <[k := make ()]> m)
       end.

(** [erase] returns the number of entries it removed. *)
Definition erase (k : N) : M (gmap N V) N :=
  λ m, Ok (if m !! k is Some _ then 1 else 0, delete k m).

(** [find] is read-only. *)
Definition find (k : N) (m : gmap N V) : iterator :=
  if m !! k is Some _ then Some k else None.

End unordered_map.

(** *** The registry of contexts *)

Section registry.
Context {MatchBase IndexBase : Type}.

#[local] Abbreviation WasmContext := (WasmContext MatchBase IndexBase).

(** [contexts_] maps unique IDs to [WasmContext] instances.  The map owns
    its contexts; a reference [WasmContext &] to one of them is the key of
    its entry, and [deref] reads what it refers to. *)
Definition Ref := N.
Definition deref (r : Ref) (contexts_ : gmap N WasmContext) : option WasmContext :=
  contexts_ !! r.

(** Creates a new [WasmContext] for ID [id] with [size] bytes of virtual
    address space. *)
Definition Create_Wasm_Context_For_ID (id : N) (plan : MatchBase)
    (configuration : config_t) (size : N) : M (gmap N WasmContext) Ref :=
  let wasm_context := WasmContext_new id plan configuration size in
  '(it, inserted) ← emplace id wasm_context;
  M_insist inserted "WasmContext with that ID already exists";;
  mret it.

(** If none exists, creates a new [WasmContext] for ID [id] with [size] bytes
    of virtual address space. *)
Definition Ensure_Wasm_Context_For_ID (id : N) (plan : MatchBase)
    (configuration : config_t) (size : N)
    : M (gmap N WasmContext) (Ref * bool) :=
  '(it, inserted) ← try_emplace id
                      (λ _, WasmContext_new id plan configuration size);
  mret (it, inserted).

(** The calls that leave [size] to its default [WASM_MAX_MEMORY], and those
    that also leave [configuration] to its default
    [WasmContext::config_t(0x0)]. *)
Definition Create_Wasm_Context_For_ID_default_size (id : N) (plan : MatchBase)
    (configuration : config_t) : M (gmap N WasmContext) Ref :=
  Create_Wasm_Context_For_ID id plan configuration WASM_MAX_MEMORY.

Definition Create_Wasm_Context_For_ID_defaults (id : N) (plan : MatchBase)
    : M (gmap N WasmContext) Ref :=
  Create_Wasm_Context_For_ID_default_size id plan 0.

Definition Ensure_Wasm_Context_For_ID_default_size (id : N) (plan : MatchBase)
    (configuration : config_t) : M (gmap N WasmContext) (Ref * bool) :=
  Ensure_Wasm_Context_For_ID id plan configuration WASM_MAX_MEMORY.

Definition Ensure_Wasm_Context_For_ID_defaults (id : N) (plan : MatchBase)
    : M (gmap N WasmContext) (Ref * bool) :=
  Ensure_Wasm_Context_For_ID_default_size id plan 0.

(** Disposes the [WasmContext] with ID [id]. *)
Definition Dispose_Wasm_Context (id : N) : M (gmap N WasmContext) () :=
  res ← erase id;
  M_insist (res =? 1) "There is no context with the given ID to erase".

(** Disposes the [WasmContext] [ctx]. *)
Definition Dispose_Wasm_Context_ctx (ctx : WasmContext)
    : M (gmap N WasmContext) () :=
  Dispose_Wasm_Context (id ctx).

(** Returns a reference to the [WasmContext] with ID [id]. *)
Definition Get_Wasm_Context_By_ID (id : N) : M (gmap N WasmContext) Ref :=
  it ← gets (find id);
  M_insist (bool_decide (it ≠ None)) "There is no context with the given ID";;
  match it with
  | Some k => mret k
  | None => abort "dereferenced end()"
  end.

(** Tests if the [WasmContext] with ID [id] exists. *)
Definition Has_Wasm_Context (id : N) (contexts_ : gmap N WasmContext) : bool :=
  bool_decide (find id contexts_ ≠ None).

Context {Table : Type} `{!Footprint Table, !Footprint IndexBase}.

(** What a program can do to the registry in one step: one of the static
    functions above, or an operation on a context through a reference. *)
Inductive registry_step : relation (gmap N WasmContext) :=
| step_Create id plan configuration size c r c' :
    Create_Wasm_Context_For_ID id plan configuration size c = Ok (r, c') →
    registry_step c c'
| step_Ensure id plan configuration size c r c' :
    Ensure_Wasm_Context_For_ID id plan configuration size c = Ok (r, c') →
    registry_step c c'
| step_Dispose id c c' :
    Dispose_Wasm_Context id c = Ok ((), c') →
    registry_step c c'
| step_Dispose_ctx ctx c c' :
    Dispose_Wasm_Context_ctx ctx c = Ok ((), c') →
    registry_step c c'
| step_context r ctx (op : context_op Table IndexBase) c :
    deref r c = Some ctx →
    registry_step c (<[r := run_op op ctx]> c).

(** The registries that a program can reach; [contexts_] starts out empty. *)
Definition reachable (c : gmap N WasmContext) : Prop := rtc registry_step ∅ c.

(** Every entry holds a context whose [id] is the key of the entry. *)
Definition keys_are_ids (c : gmap N WasmContext) : Prop :=
  ∀ k ctx, c !! k = Some ctx → id ctx = k.

End registry.
Arguments reachable {_ _} Table {_ _} c.

(** *** Sequences of calls *)

(** A call of one of the static functions that create and dispose
    contexts. *)
Inductive registry_call (MatchBase : Type) :=
| CallCreate (id : N) (plan : MatchBase) (configuration : config_t) (size : N)
| CallEnsure (id : N) (plan : MatchBase) (configuration : config_t) (size : N)
| CallDispose (id : N).
Arguments CallCreate {_} _ _ _ _.
Arguments CallEnsure {_} _ _ _ _.
Arguments CallDispose {_} _.

Section registry_calls.
Context {MatchBase IndexBase : Type}.

(** The ID that a call is about. *)
Definition call_id (a : registry_call MatchBase) : N :=
  match a with
  | CallCreate id _ _ _ => id
  | CallEnsure id _ _ _ => id
  | CallDispose id => id
  end.

(** Makes the call and drops what it returns. *)
Definition run_call (a : registry_call MatchBase)
    : M (gmap N (WasmContext MatchBase IndexBase)) () :=
  match a with
  | CallCreate id plan configuration size =>
      Create_Wasm_Context_For_ID id plan configuration size;; mret ()
  | CallEnsure id plan configuration size =>
      Ensure_Wasm_Context_For_ID id plan configuration size;; mret ()
  | CallDispose id => Dispose_Wasm_Context id
  end.

(** Makes the calls one after the other; the first failure ends the
    program. *)
Fixpoint run_calls (calls : list (registry_call MatchBase))
    : M (gmap N (WasmContext MatchBase IndexBase)) () :=
  match calls with
  | [] => mret ()
  | a :: calls' => run_call a;; run_calls calls'
  end.

(** Whether a call is allowed when [live] tells which IDs have a context:
    [Create] needs a free ID, [Dispose] a taken one. *)
Definition allowed (a : registry_call MatchBase) (live : N → bool) : bool :=
  match a with
  | CallCreate id _ _ _ => negb (live id)
  | CallEnsure _ _ _ _ => true
  | CallDispose id => live id
  end.

(** Whether [id] has a context after an allowed call, when [live] tells
    whether it had one before. *)
Definition live_after_call (a : registry_call MatchBase) (id : N) (live : bool)
    : bool :=
  if bool_decide (call_id a = id)
  then match a with CallDispose _ => false | _ => true end
  else live.

(** Whether every call of a sequence is allowed when its turn comes. *)
Fixpoint accepted (calls : list (registry_call MatchBase)) (live : N → bool)
    : bool :=
  match calls with
  | [] => true
  | a :: calls' =>
      allowed a live
      && accepted calls' (λ id, live_after_call a id (live id))
  end.

(** Whether [id] has a context after a sequence of allowed calls. *)
Fixpoint live_after (id : N) (calls : list (registry_call MatchBase))
    (live : bool) : bool :=
  match calls with
  | [] => live
  | a :: calls' => live_after id calls' (live_after_call a id live)
  end.

End registry_calls.

(** The state in which a computation ends, unless it aborts. *)
Definition final {S A} (o : outcome (A * S)) : option S :=
  match o with
  | Ok (_, s) => Some s
  | Abort _ => None
  end.

(** A region of linear memory: its offset and its length in bytes. *)
Definition region := (N * N)%type.
Definition region_end (r : region) : N := r.1 + r.2.
(** The bytes between the end of [r1] and the start of [r2]. *)
Definition gap (r1 r2 : region) : N := r2.1 - region_end r1.

End WasmEngine.


(** ** Concrete tables, indexes and plans *)

Module scenario.
Import WasmEngine.

(** A table of which only the footprint of its store is known. *)
Record SizedTable := mkSizedTable { table_bytes : N }.
#[global] Instance SizedTable_footprint : Footprint SizedTable := table_bytes.

(** An index of which only the footprint of its serialised form is known. *)
Record SizedIndex := mkSizedIndex { index_bytes : N }.
#[global] Instance SizedIndex_footprint : Footprint SizedIndex := index_bytes.

(** A plan without content. *)
Inductive NoPlan := no_plan.

(** A fresh context of the default size, with guard pages. *)
Definition guarded_context : WasmContext NoPlan SizedIndex :=
  WasmContext_new 1 no_plan TRAP_GUARD_PAGES WASM_MAX_MEMORY.

(** A table of one page and a table of two pages. *)
Definition page_table : SizedTable := mkSizedTable WASM_PAGE_SIZE.
Definition two_page_table : SizedTable := mkSizedTable (2 * WASM_PAGE_SIZE).

Definition small_index : SizedIndex := mkSizedIndex 4096.

(** A short life of a context. *)
Definition busy_ops : list (context_op SizedTable SizedIndex) :=
  [MapTable page_table; AddIndex small_index; InstallGuardPage;
   MapIndex small_index; MapTable two_page_table].

(** A registry after [Create(0)] and [Create(5)]. *)
Definition context_0 : WasmContext NoPlan SizedIndex :=
  WasmContext_new 0 no_plan 0 WASM_MAX_MEMORY.
Definition context_5 : WasmContext NoPlan SizedIndex :=
  WasmContext_new 5 no_plan TRAP_GUARD_PAGES (16 * WASM_PAGE_SIZE).
Definition two_contexts : gmap N (WasmContext NoPlan SizedIndex) :=
  <[5 := context_5]> (<[0 := context_0]> ∅).

End scenario.

(** * Properties *)

(** ** Address resolution in the example layout *)

Import WasmEngine.

(** The factory succeeds, and leaves the tree [custom_pax_root] behind. *)
Lemma create_custom_pax_layout_eq :
  create_custom_pax_layout = Some (mkDataLayout 1000 (Some custom_pax_root)).
Proof. vm_compute. reflexivity. Qed.

(** What a group does with a tuple index, as one equation. *)
Lemma resolve_Group a t capacity base span children :
  capacity ≠ 0 →
  resolve a t (Group capacity base span children) =
    addr ← first_some (resolve a (local_index capacity t)) children;
    Some (block_offset base span (outer_block capacity t) + addr).
Proof.
  intros Hcap. simpl. rewrite bool_decide_eq_false_2 by done. reflexivity.
Qed.

Lemma resolve_Leaf a t type offset stride :
  resolve a t (Leaf type a offset stride) = Some (offset + t * stride).
Proof. simpl. by rewrite bool_decide_eq_true_2. Qed.

Lemma resolve_custom_pax_root_0 t :
  resolve 0 t custom_pax_root =
    Some (block_offset 0 524288 (outer_block 256 t) + local_index 256 t * 32).
Proof.
  unfold custom_pax_root.
  rewrite resolve_Group by done.
  cbn [first_some].
  rewrite resolve_Group by done.
  cbn [first_some].
  rewrite resolve_Leaf.
  cbn [mbind option_bind].
  unfold block_offset, outer_block, local_index.
  assert (t `mod` 256 < 256) as Hlocal by (by apply N.mod_upper_bound).
  rewrite (N.div_small _ _ Hlocal), (N.mod_small _ _ Hlocal).
  f_equal.
Qed.

Example resolve_salary_999 :
  resolve 3 999 custom_pax_root = Some (3 * 524288 + 112640 + 8192 + 231 * 64).
Proof. reflexivity. Qed.

Example resolve_unknown_attribute : resolve 7 300 custom_pax_root = None.
Proof. reflexivity. Qed.

(** C2: in the layout of [create_custom_pax_layout] (1000 tuples, root group
    of capacity 256), tuple 300 falls into outer block [300 / 256 = 1] at
    local index [300 mod 256 = 44], and attribute 0 (stride 32 bits) of that
    tuple resolves to the offset of block 1 plus [44 × 32] bits.  For every
    tuple index, the address of attribute 0 is the offset of the tuple's
    outer block plus its local index times 32. *)
Theorem resolve_attribute_0_tuple_300 :
  ∃ layout children,
    create_custom_pax_layout = Some layout ∧
    num_tuples layout = 1000 ∧
    root layout = Some (Group 256 0 524288 children) ∧
    outer_block 256 300 = 1 ∧
    local_index 256 300 = 44 ∧
    DataLayout_resolve layout 0 300 = Some (block_offset 0 524288 1 + 44 * 32) ∧
    ∀ t, DataLayout_resolve layout 0 t =
           Some (block_offset 0 524288 (outer_block 256 t)
                 + local_index 256 t * 32).
Proof.
  eexists _, _. split; [apply create_custom_pax_layout_eq|].
  cbn [num_tuples root DataLayout_resolve mbind option_bind].
  split; [done|]. split; [reflexivity|].
  split; [reflexivity|]. split; [reflexivity|].
  split; [|apply resolve_custom_pax_root_0].
  rewrite resolve_custom_pax_root_0. reflexivity.
Qed.

(** ** The heap cursor of a context *)

Section context_properties.
Context {MatchBase IndexBase Table : Type}.
Context `{!Footprint Table, !Footprint IndexBase}.
Implicit Types (ctx : WasmContext MatchBase IndexBase).
Implicit Types (op : context_op Table IndexBase).
Implicit Types (ops : list (context_op Table IndexBase)).


Lemma uint32_t_add_l x y : uint32_t (uint32_t x + y) = uint32_t (x + y).
Proof. unfold uint32_t. by rewrite N.Div0.add_mod_idemp_l. Qed.



Lemma heap_install_guard_page ctx :
  heap (install_guard_page ctx) = uint32_t (next_page_boundary (heap ctx)).
Proof. reflexivity. Qed.

(** The cursor stays a [uint32_t]. *)
Lemma heap_install_guard_page_bound ctx : heap (install_guard_page ctx) < 2 ^ 32.
Proof. rewrite heap_install_guard_page. by apply N.mod_upper_bound. Qed.

Lemma config_install_guard_page cfg ctx :
  config cfg (install_guard_page ctx) = config cfg ctx.
Proof. reflexivity. Qed.


Lemma config_map_bytes cfg bytes ctx :
  config cfg (map_bytes bytes ctx).2 = config cfg ctx.
Proof.
  unfold map_bytes. cbn [snd].
  by destruct (config TRAP_GUARD_PAGES _).
Qed.






Lemma config_run_op cfg op ctx : config cfg (run_op op ctx) = config cfg ctx.
Proof.
  destruct op; cbn [run_op]; unfold map_table, map_index;
    auto using config_map_bytes.
Qed.





(** *** Two tables mapped one after the other *)



(** *** Index handles *)

Lemma length_indexes_run_ops ops ctx :
  length (indexes (run_ops ops ctx)) =
    (length (indexes ctx) + count_add_index ops)%nat.
Proof.
  revert ctx. induction ops as [|op ops IH]; intros ctx.
  { cbn. lia. }
  change (run_ops (op :: ops) ctx) with (run_ops ops (run_op op ctx)).
  rewrite IH. destruct op; cbn [count_add_index run_op].
  - unfold map_table, map_bytes. cbn [snd].
    destruct (config TRAP_GUARD_PAGES _); cbn; lia.
  - unfold map_index, map_bytes. cbn [snd].
    destruct (config TRAP_GUARD_PAGES _); cbn; lia.
  - cbn. lia.
  - cbn. rewrite length_app. cbn. lia.
Qed.

(** C7: [add_index] appends the index reference to [indexes] and returns its
    position, which is the number of indexes the context held before the
    call; looking that position up afterwards yields the index.  For a
    context that was constructed and then operated on, the position is the
    number of [add_index] calls made before. *)
Theorem add_index_ordinal :
  (∀ ctx (index : IndexBase),
     let r := add_index index ctx in
     r.1 = N.of_nat (length (indexes ctx)) ∧
     indexes r.2 = indexes ctx ++ [index] ∧
     indexes r.2 !! N.to_nat r.1 = Some index ∧
     heap r.2 = heap ctx) ∧
  (∀ id (plan : MatchBase) configuration size ops (index : IndexBase),
     (add_index index
        (run_ops ops (WasmContext_new id plan configuration size))).1
     = N.of_nat (count_add_index ops)).
Proof.
  assert (∀ ctx (index : IndexBase),
            (add_index index ctx).1 = N.of_nat (length (indexes ctx))) as Hfst.
  { intros ctx index. unfold add_index. cbn [fst indexes].
    rewrite length_app. cbn [length]. lia. }
  split.
  - intros ctx index r. split; [apply Hfst|]. split; [done|]. split; [|done].
    subst r. rewrite Hfst, Nat2N.id. unfold add_index. cbn [snd indexes].
    by rewrite list_lookup_middle.
  - intros. by rewrite Hfst, length_indexes_run_ops.
Qed.

End context_properties.

(** ** The registry *)

Section registry_properties.
Context {MatchBase IndexBase : Type}.
Implicit Types (c : gmap N (WasmContext MatchBase IndexBase)).
Implicit Types (ctx : WasmContext MatchBase IndexBase).
Implicit Types (plan : MatchBase) (id : N).

Lemma Create_Wasm_Context_For_ID_eq id plan configuration size c :
  Create_Wasm_Context_For_ID id plan configuration size c =
    match c !! id with
    | Some _ => Abort "WasmContext with that ID already exists"
    | None => Ok (id, <[id := WasmContext_new id plan configuration size]> c)
    end.
Proof.
  unfold Create_Wasm_Context_For_ID, mbind, M_bind, emplace.
  by destruct (c !! id).
Qed.

Lemma Ensure_Wasm_Context_For_ID_eq id plan configuration size c :
  Ensure_Wasm_Context_For_ID id plan configuration size c =
    match c !! id with
    | Some _ => Ok ((id, false), c)
    | None =>
        Ok ((id, true), <[id := WasmContext_new id plan configuration size]> c)
    end.
Proof.
  unfold Ensure_Wasm_Context_For_ID, mbind, M_bind, try_emplace.
  by destruct (c !! id).
Qed.

Lemma Dispose_Wasm_Context_eq id c :
  Dispose_Wasm_Context id c =
    match c !! id with
    | Some _ => Ok ((), delete id c)
    | None => Abort "There is no context with the given ID to erase"
    end.
Proof.
  unfold Dispose_Wasm_Context, mbind, M_bind, erase.
  by destruct (c !! id).
Qed.

Lemma Get_Wasm_Context_By_ID_eq id c :
  Get_Wasm_Context_By_ID id c =
    match c !! id with
    | Some _ => Ok (id, c)
    | None => Abort "There is no context with the given ID"
    end.
Proof.
  unfold Get_Wasm_Context_By_ID, mbind, M_bind, gets, find.
  by destruct (c !! id).
Qed.

Lemma Has_Wasm_Context_eq id c :
  Has_Wasm_Context id c = bool_decide (is_Some (c !! id)).
Proof.
  unfold Has_Wasm_Context, find. destruct (c !! id) eqn:Hid.
  - rewrite bool_decide_eq_true_2 by done. by rewrite bool_decide_eq_true_2.
  - rewrite bool_decide_eq_false_2 by (by intros []).
    rewrite bool_decide_eq_false_2; [done|]. by intros [? ?].
Qed.

(** C3: [Create] fails when a context with the ID is registered already;
    otherwise it constructs a context, inserts it under the ID and returns a
    reference to it.  Creating, disposing and creating again succeeds. *)
Theorem Create_Wasm_Context_For_ID_correct id plan configuration size c :
  match c !! id with
  | Some _ =>
      Create_Wasm_Context_For_ID id plan configuration size c
        = Abort "WasmContext with that ID already exists"
  | None =>
      let fresh := WasmContext_new id plan configuration size in
      Create_Wasm_Context_For_ID id plan configuration size c
        = Ok (id, <[id := fresh]> c) ∧
      deref id (<[id := fresh]> c) = Some fresh ∧
      ∀ plan' configuration' size',
        (Create_Wasm_Context_For_ID id plan configuration size;;
         Dispose_Wasm_Context id;;
         Create_Wasm_Context_For_ID id plan' configuration' size') c
        = Ok (id, <[id := WasmContext_new id plan' configuration' size']> c)
  end.
Proof.
  destruct (c !! id) eqn:Hid.
  - by rewrite Create_Wasm_Context_For_ID_eq, Hid.
  - intros fresh. split; [|split].
    + by rewrite Create_Wasm_Context_For_ID_eq, Hid.
    + apply lookup_insert_eq.
    + intros plan' configuration' size'. unfold mbind, M_bind.
      rewrite Create_Wasm_Context_For_ID_eq, Hid.
      rewrite Dispose_Wasm_Context_eq, lookup_insert_eq.
      rewrite Create_Wasm_Context_For_ID_eq, lookup_delete_eq.
      by rewrite delete_insert_eq, insert_delete_eq.
Qed.

(** C4: [Ensure] returns the registered context and [false] when the ID is
    present, and leaves the registry as it is; otherwise it constructs and
    inserts a context as [Create] does and returns it with [true]. *)
Theorem Ensure_Wasm_Context_For_ID_correct id plan configuration size c :
  match c !! id with
  | Some existing =>
      Ensure_Wasm_Context_For_ID id plan configuration size c
        = Ok ((id, false), c) ∧
      deref id c = Some existing
  | None =>
      ∃ r c',
        Create_Wasm_Context_For_ID id plan configuration size c = Ok (r, c') ∧
        Ensure_Wasm_Context_For_ID id plan configuration size c
          = Ok ((r, true), c') ∧
        deref r c' = Some (WasmContext_new id plan configuration size)
  end.
Proof.
  destruct (c !! id) eqn:Hid.
  - by rewrite Ensure_Wasm_Context_For_ID_eq, Hid.
  - eexists _, _.
    rewrite Create_Wasm_Context_For_ID_eq, Ensure_Wasm_Context_For_ID_eq, Hid.
    split; [done|]. split; [done|]. apply lookup_insert_eq.
Qed.

(** C5: [Dispose] removes the entry of the ID, after which [Has] is false
    and [Get] fails; it fails when there is no entry with the ID. *)
Theorem Dispose_Wasm_Context_correct id c :
  match c !! id with
  | Some _ =>
      Dispose_Wasm_Context id c = Ok ((), delete id c) ∧
      Has_Wasm_Context id (delete id c) = false ∧
      Get_Wasm_Context_By_ID id (delete id c)
        = Abort "There is no context with the given ID" ∧
      (∀ id', id' ≠ id → delete id c !! id' = c !! id')
  | None =>
      Dispose_Wasm_Context id c
        = Abort "There is no context with the given ID to erase"
  end.
Proof.
  rewrite Dispose_Wasm_Context_eq. destruct (c !! id) eqn:Hid; [|done].
  split; [done|]. split; [|split].
  - rewrite Has_Wasm_Context_eq, lookup_delete_eq.
    apply bool_decide_eq_false_2. by intros [? ?].
  - by rewrite Get_Wasm_Context_By_ID_eq, lookup_delete_eq.
  - intros id' Hne. by apply lookup_delete_ne.
Qed.

End registry_properties.

(** ** Identity of the registered contexts *)

Section identity.
Context {MatchBase IndexBase Table : Type}.
Context `{!Footprint Table, !Footprint IndexBase}.
Implicit Types (c : gmap N (WasmContext MatchBase IndexBase)).
Implicit Types (ctx : WasmContext MatchBase IndexBase).
Implicit Types (op : context_op Table IndexBase).

Lemma id_run_op op ctx : id (run_op op ctx) = id ctx.
Proof.
  destruct op; cbn [run_op]; [| |done|done];
    unfold map_table, map_index, map_bytes; cbn [snd];
    by destruct (config TRAP_GUARD_PAGES _).
Qed.

Lemma keys_are_ids_insert k ctx c :
  id ctx = k → keys_are_ids c → keys_are_ids (<[k := ctx]> c).
Proof.
  intros Hid Hc j ctx' Hj. destruct (decide (k = j)) as [->|Hne].
  - rewrite lookup_insert_eq in Hj. by simplify_eq.
  - rewrite lookup_insert_ne in Hj by done. by apply Hc.
Qed.

Lemma keys_are_ids_delete k c : keys_are_ids c → keys_are_ids (delete k c).
Proof.
  intros Hc j ctx' Hj. apply lookup_delete_Some in Hj as [_ Hj]. by apply Hc.
Qed.

Lemma registry_step_keys_are_ids c c' :
  registry_step (Table := Table) c c' → keys_are_ids c → keys_are_ids c'.
Proof.
  intros Hstep Hc. destruct Hstep as
    [k plan cfg sz c r c' H|k plan cfg sz c r c' H|k c c' H|ctx c c' H
    |r ctx op c H].
  - rewrite Create_Wasm_Context_For_ID_eq in H.
    destruct (c !! k); simplify_eq. by apply keys_are_ids_insert.
  - rewrite Ensure_Wasm_Context_For_ID_eq in H.
    destruct (c !! k); simplify_eq; [done|]. by apply keys_are_ids_insert.
  - rewrite Dispose_Wasm_Context_eq in H.
    destruct (c !! k); simplify_eq. by apply keys_are_ids_delete.
  - unfold Dispose_Wasm_Context_ctx in H. rewrite Dispose_Wasm_Context_eq in H.
    destruct (c !! id ctx); simplify_eq. by apply keys_are_ids_delete.
  - apply keys_are_ids_insert; [|done]. rewrite id_run_op. by apply Hc.
Qed.

Lemma reachable_keys_are_ids c : reachable Table c → keys_are_ids c.
Proof.
  intros Hreach.
  refine (rtc_ind_r (λ c, keys_are_ids c) ∅ _ _ c Hreach).
  - intros k ctx Hk. by rewrite lookup_empty in Hk.
  - intros c1 c2 _ Hstep IH. by eapply registry_step_keys_are_ids.
Qed.

(** C9, amended: the [id] of a live context is an unsigned number, zero
    included, that the caller chose: it is the ID the context is registered
    under.  IDs are unique among the live contexts, and an ID whose context
    was disposed can be given to a new context. *)
Theorem live_context_ids c :
  reachable Table c →
  (∀ k ctx, c !! k = Some ctx → id ctx = k ∧ 0 ≤ id ctx) ∧
  (∀ k1 k2 ctx1 ctx2,
     c !! k1 = Some ctx1 → c !! k2 = Some ctx2 → id ctx1 = id ctx2 → k1 = k2) ∧
  (∀ k c' plan configuration size,
     Dispose_Wasm_Context k c = Ok ((), c') →
     ∃ c'', Create_Wasm_Context_For_ID k plan configuration size c'
              = Ok (k, c'') ∧
            deref k c'' = Some (WasmContext_new k plan configuration size) ∧
            reachable Table c'').
Proof.
  intros Hreach. pose proof (reachable_keys_are_ids c Hreach) as Hkeys.
  split; [|split].
  - intros k ctx Hk. split; [by apply Hkeys|lia].
  - intros k1 k2 ctx1 ctx2 H1 H2 Hid.
    apply Hkeys in H1, H2. congruence.
  - intros k c' plan cfg sz Hdispose.
    assert (c' = delete k c) as ->.
    { rewrite Dispose_Wasm_Context_eq in Hdispose.
      by destruct (c !! k); simplify_eq. }
    eexists. split; [|split].
    + by rewrite Create_Wasm_Context_For_ID_eq, lookup_delete_eq.
    + apply lookup_insert_eq.
    + eapply rtc_r; [eapply rtc_r; [exact Hreach|]|].
      * by eapply step_Dispose.
      * eapply step_Create.
        by rewrite Create_Wasm_Context_For_ID_eq, lookup_delete_eq.
Qed.

(** C10: every entry of the registry holds a context whose own [id] is the
    key of the entry, so that disposing the context by reference, which
    disposes by [ctx.id], removes the entry of that context and no other. *)
Theorem registry_key_is_context_id c k ctx :
  reachable Table c →
  c !! k = Some ctx →
  id ctx = k ∧
  Dispose_Wasm_Context_ctx ctx c = Ok ((), delete k c) ∧
  delete k c !! k = None ∧
  (∀ j, j ≠ k → delete k c !! j = c !! j).
Proof.
  intros Hreach Hk.
  assert (id ctx = k) as Hid by (by eapply reachable_keys_are_ids).
  split; [done|]. split; [|split].
  - unfold Dispose_Wasm_Context_ctx.
    by rewrite Hid, Dispose_Wasm_Context_eq, Hk.
  - apply lookup_delete_eq.
  - intros j Hne. by apply lookup_delete_ne.
Qed.

(** C8: a context that [Create] or [Ensure] constructs with the size left to
    its default reserves exactly [2^32 - 2^16] bytes, and its [heap] starts
    at 0. *)
Theorem default_size_and_heap c k (plan : MatchBase) :
  c !! k = None →
  (∀ configuration, ∃ ctx,
     Create_Wasm_Context_For_ID_default_size k plan configuration c
       = Ok (k, <[k := ctx]> c) ∧
     Ensure_Wasm_Context_For_ID_default_size k plan configuration c
       = Ok ((k, true), <[k := ctx]> c) ∧
     size (vm ctx) = 2 ^ 32 - 2 ^ 16 ∧
     heap ctx = 0) ∧
  (∃ ctx,
     Create_Wasm_Context_For_ID_defaults k plan c = Ok (k, <[k := ctx]> c) ∧
     Ensure_Wasm_Context_For_ID_defaults k plan c
       = Ok ((k, true), <[k := ctx]> c) ∧
     size (vm ctx) = 2 ^ 32 - 2 ^ 16 ∧
     heap ctx = 0).
Proof.
  intros Hk.
  assert (∀ configuration, ∃ ctx,
     Create_Wasm_Context_For_ID_default_size k plan configuration c
       = Ok (k, <[k := ctx]> c) ∧
     Ensure_Wasm_Context_For_ID_default_size k plan configuration c
       = Ok ((k, true), <[k := ctx]> c) ∧
     size (vm ctx) = 2 ^ 32 - 2 ^ 16 ∧
     heap ctx = 0) as Hsize.
  { intros configuration. eexists.
    unfold Create_Wasm_Context_For_ID_default_size,
      Ensure_Wasm_Context_For_ID_default_size.
    rewrite Create_Wasm_Context_For_ID_eq, Ensure_Wasm_Context_For_ID_eq, Hk.
    split; [done|]. split; [done|]. split; reflexivity. }
  split; [exact Hsize|]. exact (Hsize 0).
Qed.

End identity.

(** ** How the functions of the registry compose *)

Section registry_composition.
Context {MatchBase IndexBase : Type}.
Implicit Types (c : gmap N (WasmContext MatchBase IndexBase)).
Implicit Types (ctx : WasmContext MatchBase IndexBase).
Implicit Types (plan : MatchBase) (id : N).

(** X1: [Get_Wasm_Context_By_ID] succeeds exactly when [Has_Wasm_Context]
    is true; it then returns the reference to the registered context and
    leaves the registry as it is.  When [Has_Wasm_Context] is false it
    aborts. *)
Theorem Get_succeeds_iff_Has id c :
  if Has_Wasm_Context id c
  then Get_Wasm_Context_By_ID id c = Ok (id, c) ∧ is_Some (deref id c)
  else Get_Wasm_Context_By_ID id c
         = Abort "There is no context with the given ID" ∧
       deref id c = None.
Proof.
  rewrite Has_Wasm_Context_eq, Get_Wasm_Context_By_ID_eq. unfold deref.
  destruct (c !! id) eqn:Hid.
  - rewrite bool_decide_eq_true_2 by done. by split.
  - rewrite bool_decide_eq_false_2 by (by intros [? ?]). by split.
Qed.

(** X2: on a registry without the ID, [Create] followed by [Dispose] gives
    back the registry it started from. *)
Theorem Create_then_Dispose_restores id plan configuration size c :
  Has_Wasm_Context id c = false →
  (Create_Wasm_Context_For_ID id plan configuration size;;
   Dispose_Wasm_Context id) c = Ok ((), c).
Proof.
  rewrite Has_Wasm_Context_eq. intros Hhas%bool_decide_eq_false.
  assert (c !! id = None) as Hid.
  { destruct (c !! id) eqn:E; [|done]. by destruct Hhas. }
  unfold mbind, M_bind.
  rewrite Create_Wasm_Context_For_ID_eq, Hid.
  rewrite Dispose_Wasm_Context_eq, lookup_insert_eq.
  by rewrite delete_insert_eq, delete_id.
Qed.

(** X3: [Ensure] never fails, and a second [Ensure] for the same ID,
    whatever plan, configuration and size it is given, returns the same
    reference with [inserted = false] and leaves the registry as the first
    call left it. *)
Theorem Ensure_twice id plan1 configuration1 size1 plan2 configuration2 size2 c :
  ∃ r inserted c',
    Ensure_Wasm_Context_For_ID id plan1 configuration1 size1 c
      = Ok ((r, inserted), c') ∧
    Ensure_Wasm_Context_For_ID id plan2 configuration2 size2 c'
      = Ok ((r, false), c').
Proof.
  rewrite Ensure_Wasm_Context_For_ID_eq. destruct (c !! id) eqn:Hid.
  - eexists _, _, _. split; [done|].
    by rewrite Ensure_Wasm_Context_For_ID_eq, Hid.
  - eexists _, _, _. split; [done|].
    by rewrite Ensure_Wasm_Context_For_ID_eq, lookup_insert_eq.
Qed.

(** X4: [Ensure] after [Create] for the same ID does what [Create] alone
    does and reports [inserted = false]; [Create] after [Ensure] for the
    same ID always fails. *)
Theorem Create_and_Ensure_in_sequence
    id plan1 configuration1 size1 plan2 configuration2 size2 c :
  (Create_Wasm_Context_For_ID id plan1 configuration1 size1;;
   Ensure_Wasm_Context_For_ID id plan2 configuration2 size2) c
  = (r ← Create_Wasm_Context_For_ID id plan1 configuration1 size1;
     mret (r, false)) c ∧
  (Ensure_Wasm_Context_For_ID id plan1 configuration1 size1;;
   Create_Wasm_Context_For_ID id plan2 configuration2 size2) c
  = Abort "WasmContext with that ID already exists".
Proof.
  unfold mbind, M_bind. split.
  - rewrite Create_Wasm_Context_For_ID_eq. destruct (c !! id) eqn:Hid; [done|].
    by rewrite Ensure_Wasm_Context_For_ID_eq, lookup_insert_eq.
  - rewrite Ensure_Wasm_Context_For_ID_eq. destruct (c !! id) eqn:Hid.
    + by rewrite Create_Wasm_Context_For_ID_eq, Hid.
    + by rewrite Create_Wasm_Context_For_ID_eq, lookup_insert_eq.
Qed.

(** X5: disposing the same ID twice in a row always fails, whether or not
    the ID was registered. *)
Theorem Dispose_twice_fails id c :
  (Dispose_Wasm_Context id;; Dispose_Wasm_Context id) c
  = Abort "There is no context with the given ID to erase".
Proof.
  unfold mbind, M_bind. rewrite Dispose_Wasm_Context_eq.
  destruct (c !! id) eqn:Hid; [|done].
  by rewrite Dispose_Wasm_Context_eq, lookup_delete_eq.
Qed.

(** X6: the number of live contexts.  On a free ID, [Create] and [Ensure]
    add one entry and keep every other entry as it is.  On a taken ID,
    [Ensure] changes nothing, and [Dispose] removes one entry and keeps
    every other entry as it is. *)
Theorem registry_size id plan configuration size c :
  match c !! id with
  | None =>
      ∃ c1 c2,
        Create_Wasm_Context_For_ID id plan configuration size c = Ok (id, c1) ∧
        Ensure_Wasm_Context_For_ID id plan configuration size c
          = Ok ((id, true), c2) ∧
        base.size c1 = S (base.size c) ∧ base.size c2 = S (base.size c) ∧
        c ⊆ c1 ∧ c ⊆ c2 ∧
        dom c1 = {[id]} ∪ dom c ∧ dom c2 = {[id]} ∪ dom c
  | Some _ =>
      ∃ c3,
        Ensure_Wasm_Context_For_ID id plan configuration size c
          = Ok ((id, false), c) ∧
        Dispose_Wasm_Context id c = Ok ((), c3) ∧
        S (base.size c3) = base.size c ∧
        c3 ⊆ c ∧
        dom c3 = dom c ∖ {[id]}
  end.
Proof.
  rewrite Create_Wasm_Context_For_ID_eq, Ensure_Wasm_Context_For_ID_eq,
    Dispose_Wasm_Context_eq.
  destruct (c !! id) eqn:Hid.
  - eexists. split; [done|]. split; [done|].
    split; [|split].
    + rewrite <-(insert_delete_id c id _ Hid) at 2.
      by rewrite map_size_insert_None by apply lookup_delete_eq.
    + apply delete_subseteq.
    + apply dom_delete_L.
  - eexists _, _. split; [done|]. split; [done|].
    rewrite map_size_insert_None by done.
    repeat split; try done; try (by apply insert_subseteq); apply dom_insert_L.
Qed.

(** X7: after a [Create] that succeeds, [Has] is true and [Get] returns the
    reference that [Create] returned, without changing the registry; a
    [Create] that fails was called while [Has] was true. *)
Theorem Has_and_Get_after_Create id plan configuration size c :
  match Create_Wasm_Context_For_ID id plan configuration size c with
  | Ok (r, c') =>
      Has_Wasm_Context id c = false ∧
      Has_Wasm_Context id c' = true ∧
      Get_Wasm_Context_By_ID id c' = Ok (r, c') ∧
      deref r c' = Some (WasmContext_new id plan configuration size)
  | Abort _ => Has_Wasm_Context id c = true
  end.
Proof.
  rewrite Create_Wasm_Context_For_ID_eq.
  destruct (c !! id) eqn:Hid.
  - rewrite Has_Wasm_Context_eq, Hid. by rewrite bool_decide_eq_true_2.
  - rewrite !Has_Wasm_Context_eq, Get_Wasm_Context_By_ID_eq.
    unfold deref. rewrite lookup_insert_eq, Hid.
    rewrite bool_decide_eq_false_2 by (by intros [? ?]).
    rewrite bool_decide_eq_true_2 by done.
    repeat split. apply lookup_insert_eq.
Qed.

End registry_composition.

(** ** Sequences of calls on the registry *)

Section registry_sequences.
Context {MatchBase IndexBase : Type}.
Implicit Types (c : gmap N (WasmContext MatchBase IndexBase)).
Implicit Types (a b : registry_call MatchBase).
Implicit Types (calls : list (registry_call MatchBase)).

Lemma run_call_eq a c :
  run_call a c =
    match a with
    | CallCreate id plan configuration size =>
        match c !! id with
        | Some _ => Abort "WasmContext with that ID already exists"
        | None =>
            Ok ((), <[id := WasmContext_new id plan configuration size]> c)
        end
    | CallEnsure id plan configuration size =>
        match c !! id with
        | Some _ => Ok ((), c)
        | None =>
            Ok ((), <[id := WasmContext_new id plan configuration size]> c)
        end
    | CallDispose id =>
        match c !! id with
        | Some _ => Ok ((), delete id c)
        | None => Abort "There is no context with the given ID to erase"
        end
    end.
Proof.
  destruct a as [id plan cfg sz|id plan cfg sz|id]; cbn [run_call];
    unfold mbind, M_bind.
  - rewrite Create_Wasm_Context_For_ID_eq. by destruct (c !! id).
  - rewrite Ensure_Wasm_Context_For_ID_eq. by destruct (c !! id).
  - apply Dispose_Wasm_Context_eq.
Qed.

Lemma Has_Wasm_Context_true id c :
  Has_Wasm_Context id c = true ↔ is_Some (c !! id).
Proof. rewrite Has_Wasm_Context_eq. apply bool_decide_eq_true. Qed.

Lemma Has_Wasm_Context_insert id k ctx c :
  Has_Wasm_Context id (<[k := ctx]> c)
  = if bool_decide (k = id) then true else Has_Wasm_Context id c.
Proof.
  rewrite !Has_Wasm_Context_eq. destruct (decide (k = id)) as [->|Hk].
  - rewrite lookup_insert_eq, (bool_decide_eq_true_2 (id = id)) by done.
    by rewrite bool_decide_eq_true_2.
  - rewrite lookup_insert_ne by done.
    by rewrite (bool_decide_eq_false_2 (k = id)).
Qed.

Lemma Has_Wasm_Context_delete id k c :
  Has_Wasm_Context id (delete k c)
  = if bool_decide (k = id) then false else Has_Wasm_Context id c.
Proof.
  rewrite !Has_Wasm_Context_eq. destruct (decide (k = id)) as [->|Hk].
  - rewrite lookup_delete_eq, (bool_decide_eq_true_2 (id = id)) by done.
    rewrite bool_decide_eq_false_2; [done|]. by intros [? ?].
  - rewrite lookup_delete_ne by done.
    by rewrite (bool_decide_eq_false_2 (k = id)).
Qed.

(** What one call does to [Has]. *)
Lemma run_call_Has a c :
  match run_call a c with
  | Ok (_, c') =>
      allowed a (λ id, Has_Wasm_Context id c) = true ∧
      (∀ id, Has_Wasm_Context id c'
             = live_after_call a id (Has_Wasm_Context id c))
  | Abort _ => allowed a (λ id, Has_Wasm_Context id c) = false
  end.
Proof.
  rewrite run_call_eq. unfold live_after_call.
  destruct a as [k plan cfg sz|k plan cfg sz|k]; cbn [allowed call_id];
    destruct (c !! k) eqn:Hk.
  - rewrite Has_Wasm_Context_eq, Hk. by rewrite bool_decide_eq_true_2.
  - split.
    + rewrite Has_Wasm_Context_eq, Hk.
      rewrite bool_decide_eq_false_2; [done|]. by intros [? ?].
    + intros id. apply Has_Wasm_Context_insert.
  - split; [done|].
    intros id. case_bool_decide as Hid; [|done].
    subst. rewrite Has_Wasm_Context_eq, Hk. by rewrite bool_decide_eq_true_2.
  - split; [done|]. intros id. apply Has_Wasm_Context_insert.
  - split.
    + rewrite Has_Wasm_Context_eq, Hk. by rewrite bool_decide_eq_true_2.
    + intros id. apply Has_Wasm_Context_delete.
  - rewrite Has_Wasm_Context_eq, Hk.
    rewrite bool_decide_eq_false_2; [done|]. by intros [? ?].
Qed.

(** X15: what one call does to the IDs.  A call succeeds exactly when it is
    allowed ([Create] on a free ID, [Dispose] on a taken one, [Ensure]
    always).  When it succeeds, the ID it is about is live after [Create]
    and [Ensure] and free after [Dispose], and for every other ID neither
    [Has] nor the registered context changes. *)
Theorem call_changes_only_its_id a c :
  match run_call a c with
  | Ok (_, c') =>
      allowed a (λ id, Has_Wasm_Context id c) = true ∧
      (∀ id, Has_Wasm_Context id c'
             = live_after_call a id (Has_Wasm_Context id c)) ∧
      (∀ id, id ≠ call_id a → deref id c' = deref id c)
  | Abort _ => allowed a (λ id, Has_Wasm_Context id c) = false
  end.
Proof.
  pose proof (run_call_Has a c) as HHas.
  assert (∀ u c', run_call a c = Ok (u, c') →
            ∀ id, id ≠ call_id a → deref id c' = deref id c) as Hframe.
  { intros u c' Hrun id Hne. rewrite run_call_eq in Hrun. unfold deref.
    destruct a as [k plan cfg sz|k plan cfg sz|k]; cbn [call_id] in Hne;
      destruct (c !! k); simplify_eq;
      by rewrite ?lookup_insert_ne, ?lookup_delete_ne by done. }
  destruct (run_call a c) as [[u c']|msg]; [|done].
  destruct HHas as [Hallowed Hlive]. split; [done|]. split; [done|].
  by apply (Hframe u).
Qed.

Lemma accepted_ext calls (live1 live2 : N → bool) :
  (∀ id, live1 id = live2 id) → accepted calls live1 = accepted calls live2.
Proof.
  revert live1 live2. induction calls as [|a calls IH]; intros live1 live2 Hext.
  { done. }
  cbn [accepted]. f_equal.
  - destruct a; cbn [allowed]; by rewrite ?Hext.
  - apply IH. intros id. by rewrite Hext.
Qed.

(** X16: a sequence of [Create], [Ensure] and [Dispose] calls runs without
    failure exactly when every call is allowed at its turn, which only
    depends on the IDs that are live at the start; after such a sequence,
    an ID is live exactly when the last call about it was a [Create] or an
    [Ensure], or, without a call about it, when it was live at the start. *)
Theorem run_calls_accepted calls c :
  match run_calls calls c with
  | Ok (_, c') =>
      accepted calls (λ id, Has_Wasm_Context id c) = true ∧
      ∀ id, Has_Wasm_Context id c'
            = live_after id calls (Has_Wasm_Context id c)
  | Abort _ => accepted calls (λ id, Has_Wasm_Context id c) = false
  end.
Proof.
  revert c. induction calls as [|a calls IH]; intros c.
  { by cbn. }
  cbn [run_calls accepted live_after]. unfold mbind, M_bind.
  pose proof (run_call_Has a c) as Hcall.
  destruct (run_call a c) as [[[] c1]|msg].
  - destruct Hcall as (Hallowed & Hlive). rewrite Hallowed.
    rewrite andb_true_l.
    rewrite <-(accepted_ext calls (λ id, Has_Wasm_Context id c1)) by done.
    specialize (IH c1). destruct (run_calls calls c1) as [[[] c2]|msg2].
    + destruct IH as [Hacc Hafter]. split; [done|].
      intros id. by rewrite Hafter, Hlive.
    + done.
  - by rewrite Hcall.
Qed.

(** X17: calls about different IDs commute: made in either order, the two
    calls both succeed or one of them fails, and when they succeed they
    leave the same registry. *)
Theorem calls_on_different_ids_commute a b c :
  call_id a ≠ call_id b →
  final ((run_call a;; run_call b) c) = final ((run_call b;; run_call a) c).
Proof.
  intros Hne. unfold mbind, M_bind. rewrite !run_call_eq.
  destruct a as [i p1 f1 s1|i p1 f1 s1|i], b as [j p2 f2 s2|j p2 f2 s2|j];
    cbn [call_id] in Hne;
    destruct (c !! i) eqn:Hi, (c !! j) eqn:Hj;
    rewrite ?run_call_eq;
    rewrite ?lookup_insert_ne, ?lookup_delete_ne by done;
    rewrite ?Hi, ?Hj; cbn [final]; try done;
    f_equal; first [by apply insert_insert_ne | by apply delete_insert_ne
                   | by rewrite delete_insert_ne by done
                   | by apply delete_delete ].
Qed.

End registry_sequences.

(** ** Flags, index handles and the constants of the engine *)

Section context_flags_and_indexes.
Context {MatchBase IndexBase : Type}.
Implicit Types (c : gmap N (WasmContext MatchBase IndexBase)).
Implicit Types (ctx : WasmContext MatchBase IndexBase).
Implicit Types (l : list IndexBase).

Lemma land_nonzero_iff_common_bit (a b : N) :
  N.land a b ≠ 0 ↔ ∃ n, N.testbit a n = true ∧ N.testbit b n = true.
Proof.
  split.
  - intros Hne. exists (N.log2 (N.land a b)).
    apply andb_true_iff. rewrite <-N.land_spec. by apply N.bit_log2.
  - intros (n & Ha & Hb) Hzero.
    assert (N.testbit (N.land a b) n = true) as Hbit.
    { rewrite N.land_spec, Ha, Hb. done. }
    rewrite Hzero, N.bits_0 in Hbit. done.
Qed.

Lemma config_true_iff cfg ctx :
  config cfg ctx = true ↔ N.land cfg (config_ ctx) ≠ 0.
Proof.
  unfold config. rewrite negb_true_iff. apply N.eqb_neq.
Qed.

(** X8: [config(cfg)] is true exactly when [cfg] and the configuration of
    the context have a bit in common; for [TRAP_GUARD_PAGES] this is the
    lowest bit of the configuration, and no other bit matters. *)
Theorem config_tests_common_bit cfg ctx :
  (config cfg ctx = true ↔
     ∃ n, N.testbit cfg n = true ∧ N.testbit (config_ ctx) n = true) ∧
  config TRAP_GUARD_PAGES ctx = N.odd (config_ ctx).
Proof.
  split.
  - rewrite config_true_iff. apply land_nonzero_iff_common_bit.
  - apply eq_true_iff_eq. rewrite config_true_iff, land_nonzero_iff_common_bit.
    rewrite <-N.bit0_odd. split.
    + intros (n & Hone & Hbit). destruct n as [|p]; [done|].
      by destruct p.
    + intros Hbit. by exists 0.
Qed.

(** X9: a query for several flags at once, [config(cfg1 | cfg2)], is true as
    soon as one of the flags is set: it is the disjunction of the single
    queries, not their conjunction; the query for no flag is false. *)
Theorem config_of_several_flags cfg1 cfg2 ctx :
  config (N.lor cfg1 cfg2) ctx = config cfg1 ctx || config cfg2 ctx ∧
  config 0 ctx = false.
Proof.
  unfold config. split; [|done].
  rewrite N.land_lor_distr_l.
  by destruct (N.land cfg1 (config_ ctx)), (N.land cfg2 (config_ ctx)).
Qed.

(** X10: a context that [Create] or [Ensure] constructs with the
    configuration left to its default [config_t(0x0)] has no flag set:
    [config] is false for every flag, [TRAP_GUARD_PAGES] among them. *)
Theorem default_configuration_has_no_flag c k (plan : MatchBase) :
  Has_Wasm_Context k c = false →
  ∃ ctx,
    Create_Wasm_Context_For_ID_defaults k plan c = Ok (k, <[k := ctx]> c) ∧
    Ensure_Wasm_Context_For_ID_defaults k plan c
      = Ok ((k, true), <[k := ctx]> c) ∧
    (∀ cfg, config cfg ctx = false) ∧
    config TRAP_GUARD_PAGES ctx = false.
Proof.
  rewrite Has_Wasm_Context_eq. intros Hhas%bool_decide_eq_false.
  assert (c !! k = None) as Hk.
  { destruct (c !! k) eqn:E; [|done]. by destruct Hhas. }
  eexists.
  unfold Create_Wasm_Context_For_ID_defaults,
    Ensure_Wasm_Context_For_ID_defaults,
    Create_Wasm_Context_For_ID_default_size,
    Ensure_Wasm_Context_For_ID_default_size.
  rewrite Create_Wasm_Context_For_ID_eq, Ensure_Wasm_Context_For_ID_eq, Hk.
  split; [done|]. split; [done|]. split; [|done].
  intros cfg. unfold config, WasmContext_new. cbn [config_].
  by rewrite N.land_0_r.
Qed.

Lemma add_index_fst (index : IndexBase) ctx :
  (add_index index ctx).1 = N.of_nat (length (indexes ctx)).
Proof.
  unfold add_index. cbn [fst indexes]. rewrite length_app. cbn [length]. lia.
Qed.

Lemma add_index_indexes (index : IndexBase) ctx :
  indexes (add_index index ctx).2 = indexes ctx ++ [index].
Proof. reflexivity. Qed.

(** X11: the handles of a batch of [add_index] calls.  The calls return
    consecutive handles that start at the number of indexes the context
    held; the context then holds its old indexes followed by the new ones;
    every handle looks up the index it was returned for; the handles that
    were given out before the batch still look up the same indexes; and no
    two handles of the batch are equal, also when an index is added more
    than once. *)
Theorem add_indexes_handles l ctx :
  let r := add_indexes l ctx in
  r.1 = (λ i, N.of_nat (length (indexes ctx) + i)) <$> seq 0 (length l) ∧
  indexes r.2 = indexes ctx ++ l ∧
  Forall2 (λ h index, indexes r.2 !! N.to_nat h = Some index) r.1 l ∧
  (∀ (h : nat) index,
     indexes ctx !! h = Some index → indexes r.2 !! h = Some index) ∧
  NoDup r.1.
Proof.
  cbv zeta.
  assert (∀ l ctx,
    (add_indexes l ctx).1
      = (λ i, N.of_nat (length (indexes ctx) + i)) <$> seq 0 (length l) ∧
    indexes (add_indexes l ctx).2 = indexes ctx ++ l ∧
    Forall2 (λ h index,
               indexes (add_indexes l ctx).2 !! N.to_nat h = Some index)
            (add_indexes l ctx).1 l) as Hmain.
  { clear l ctx. induction l as [|index l IH]; intros ctx.
    { cbn. rewrite app_nil_r. repeat split. constructor. }
    destruct (IH (add_index index ctx).2) as (Hfst & Hsnd & Hall).
    cbn [add_indexes fst snd length seq fmap list_fmap].
    rewrite add_index_indexes, length_app in Hfst. cbn [length] in Hfst.
    rewrite add_index_indexes, <-app_assoc in Hsnd. cbn [app] in Hsnd.
    split; [|split].
    - rewrite add_index_fst, Nat.add_0_r. f_equal.
      rewrite Hfst, <-fmap_S_seq, <-list_fmap_compose.
      apply list_fmap_ext. intros _ i _. cbn. f_equal. lia.
    - exact Hsnd.
    - constructor; [|exact Hall].
      rewrite add_index_fst, Nat2N.id, Hsnd. by apply list_lookup_middle. }
  destruct (Hmain l ctx) as (Hfst & Hsnd & Hall).
  split; [done|]. split; [done|]. split; [done|].
  split.
  { intros h index Hh. rewrite Hsnd. by apply lookup_app_l_Some. }
  rewrite Hfst. apply NoDup_fmap_2; [|apply NoDup_seq].
  intros i j Hij. apply Nat2N.inj in Hij. lia.
Qed.

(** X12: offsets that are aligned to a WebAssembly page are aligned to
    [WASM_ALIGNMENT], and from such an offset inside [WASM_MAX_MEMORY] one
    more page stays within [WASM_MAX_MEMORY] and is stored into a
    [uint32_t] without loss. *)
Theorem page_aligned_offsets (x : N) :
  x `mod` WASM_PAGE_SIZE = 0 →
  x `mod` WASM_ALIGNMENT = 0 ∧
  (x < WASM_MAX_MEMORY →
     x + WASM_PAGE_SIZE ≤ WASM_MAX_MEMORY ∧
     uint32_t (x + WASM_PAGE_SIZE) = x + WASM_PAGE_SIZE).
Proof.
  change WASM_PAGE_SIZE with 65536. change WASM_ALIGNMENT with 8.
  change WASM_MAX_MEMORY with 4294901760.
  intros Haligned.
  pose proof (N.div_mod' x 65536) as Hdiv. rewrite Haligned in Hdiv.
  set (q := x `div` 65536) in *.
  split.
  - replace x with (8192 * q * 8) by lia. apply N.Div0.mod_mul.
  - intros Hinside. split; [lia|]. apply N.mod_small. lia.
Qed.

End context_flags_and_indexes.

(** ** The cells of the example layout *)

Lemma resolve_Leaf_ne a t type k offset stride :
  k ≠ a → resolve a t (Leaf type k offset stride) = None.
Proof. intros. simpl. by rewrite bool_decide_eq_false_2. Qed.

Lemma stride_of_Group a capacity base span children :
  capacity ≠ 0 →
  stride_of a (Group capacity base span children)
    = first_some (stride_of a) children.
Proof. intros. simpl. by rewrite bool_decide_eq_false_2. Qed.

Lemma stride_of_Leaf a type offset stride :
  stride_of a (Leaf type a offset stride) = Some stride.
Proof. simpl. by rewrite bool_decide_eq_true_2. Qed.

Lemma stride_of_Leaf_ne a type k offset stride :
  k ≠ a → stride_of a (Leaf type k offset stride) = None.
Proof. intros. simpl. by rewrite bool_decide_eq_false_2. Qed.

Ltac resolve_in_custom_pax_root :=
  unfold custom_pax_root;
  repeat first
    [ rewrite resolve_Group by done
    | rewrite stride_of_Group by done
    | rewrite resolve_Leaf
    | rewrite stride_of_Leaf
    | rewrite resolve_Leaf_ne by congruence
    | rewrite stride_of_Leaf_ne by congruence
    | progress cbn [first_some mbind option_bind] ].

(** The address of every attribute of every tuple, in closed form. *)
Lemma resolve_custom_pax_root a t :
  resolve a t custom_pax_root =
    match custom_pax_column a with
    | Some (base, stride) =>
        Some (outer_block 256 t * 524288 + base + local_index 256 t * stride)
    | None => None
    end.
Proof.
  assert (t `mod` 256 < 256) as Hlocal by (by apply N.mod_upper_bound).
  unfold custom_pax_column.
  repeat case_bool_decide; subst;
    resolve_in_custom_pax_root;
    unfold block_offset, outer_block, local_index;
    rewrite ?(N.div_small _ _ Hlocal), ?(N.mod_small _ _ Hlocal);
    try done; f_equal; lia.
Qed.

Lemma stride_of_custom_pax_root a :
  stride_of a custom_pax_root = snd <$> custom_pax_column a.
Proof.
  unfold custom_pax_column.
  repeat case_bool_decide; subst; resolve_in_custom_pax_root; done.
Qed.

Lemma custom_pax_cell layout a t x s :
  create_custom_pax_layout = Some layout →
  DataLayout_resolve layout a t = Some x →
  DataLayout_stride_of layout a = Some s →
  ∃ base,
    custom_pax_column a = Some (base, s) ∧
    x = outer_block 256 t * 524288 + base + local_index 256 t * s.
Proof.
  rewrite create_custom_pax_layout_eq. intros [= <-].
  unfold DataLayout_resolve, DataLayout_stride_of.
  cbn [root mbind option_bind].
  rewrite resolve_custom_pax_root, stride_of_custom_pax_root.
  destruct (custom_pax_column a) as [[base stride]|]; [|done].
  cbn. intros [= <-] [= <-]. by exists base.
Qed.

(** X13: in the layout that [create_custom_pax_layout] builds, the slots of
    two different cells never share a bit: for two pairs of an attribute
    and a tuple index that differ, the slot of the one ends before the slot
    of the other begins. *)
Theorem custom_pax_cells_do_not_overlap layout a t x s a' t' x' s' :
  create_custom_pax_layout = Some layout →
  DataLayout_resolve layout a t = Some x →
  DataLayout_stride_of layout a = Some s →
  DataLayout_resolve layout a' t' = Some x' →
  DataLayout_stride_of layout a' = Some s' →
  (a, t) ≠ (a', t') →
  x + s ≤ x' ∨ x' + s' ≤ x.
Proof.
  intros Hlayout Hx Hs Hx' Hs' Hne.
  destruct (custom_pax_cell _ _ _ _ _ Hlayout Hx Hs) as (b & Hcol & ->).
  destruct (custom_pax_cell _ _ _ _ _ Hlayout Hx' Hs') as (b' & Hcol' & ->).
  unfold outer_block, local_index.
  pose proof (N.div_mod' t 256) as Ht.
  pose proof (N.div_mod' t' 256) as Ht'.
  pose proof (N.mod_upper_bound t 256) as Hr.
  pose proof (N.mod_upper_bound t' 256) as Hr'.
  assert (a = a' → t ≠ t') as Hdiff by (intros -> ->; done).
  set (q := t `div` 256) in *. set (r := t `mod` 256) in *.
  set (q' := t' `div` 256) in *. set (r' := t' `mod` 256) in *.
  clearbody q r q' r'. clear Hne Hx Hs Hx' Hs' Hlayout.
  unfold custom_pax_column in Hcol, Hcol'.
  repeat case_bool_decide; simplify_eq; lia.
Qed.

(** X14: in the layout that [create_custom_pax_layout] builds, the slot of
    every cell lies within the first 137216 bits of the outer block of
    its tuple, and so within that block of 64 KiB; the slots of the
    [num_tuples] tuples lie within four outer blocks. *)
Theorem custom_pax_cells_stay_in_block layout a t x s :
  create_custom_pax_layout = Some layout →
  DataLayout_resolve layout a t = Some x →
  DataLayout_stride_of layout a = Some s →
  block_offset 0 (64 * 1024 * 8) (outer_block 256 t) ≤ x ∧
  x + s ≤ block_offset 0 (64 * 1024 * 8) (outer_block 256 t) + 137216 ∧
  x + s ≤ block_offset 0 (64 * 1024 * 8) (outer_block 256 t + 1) ∧
  (t < num_tuples layout → x + s ≤ 4 * (64 * 1024 * 8)).
Proof.
  intros Hlayout Hx Hs.
  destruct (custom_pax_cell _ _ _ _ _ Hlayout Hx Hs) as (b & Hcol & ->).
  rewrite create_custom_pax_layout_eq in Hlayout. injection Hlayout as <-.
  cbn [num_tuples].
  unfold block_offset, outer_block, local_index.
  pose proof (N.div_mod' t 256) as Ht.
  pose proof (N.mod_upper_bound t 256) as Hr.
  set (q := t `div` 256) in *. set (r := t `mod` 256) in *.
  clearbody q r. clear Hx Hs.
  unfold custom_pax_column in Hcol.
  repeat case_bool_decide; simplify_eq; lia.
Qed.

(** ** The properties at concrete contexts and registries *)

Import scenario.



(** The cursor along [busy_ops]: the index of 4096 bytes ends inside a
    page, and its guard page takes the cursor to the next boundary. *)
Example heap_trace_busy_ops :
  heap_trace busy_ops guarded_context
    = [0; 131072; 131072; 196608; 262144; 458752].
Proof. reflexivity. Qed.

(** A table of 100 bytes ends inside the first page: the next table starts
    at the page boundary, 65436 bytes behind it. *)
Example small_table_then_page_table :
  let first := map_table (mkSizedTable 100) guarded_context in
  let second := map_table page_table first.2 in
  first.1 = 0 ∧ second.1 = 65536 ∧
  gap (first.1, 100) (second.1, footprint page_table) = 65436.
Proof. by repeat split. Qed.

Lemma two_contexts_reachable :
  reachable SizedTable two_contexts.
Proof.
  eapply rtc_l.
  { eapply (step_Create 0 no_plan 0 WASM_MAX_MEMORY). reflexivity. }
  eapply rtc_l; [|apply rtc_refl].
  eapply (step_Create 5 no_plan TRAP_GUARD_PAGES (16 * WASM_PAGE_SIZE)).
  reflexivity.
Qed.

Lemma live_context_ids_witness :
  reachable SizedTable two_contexts ∧
  (∀ k ctx, two_contexts !! k = Some ctx → id ctx = k ∧ 0 ≤ id ctx) ∧
  (∀ k1 k2 ctx1 ctx2,
     two_contexts !! k1 = Some ctx1 → two_contexts !! k2 = Some ctx2 →
     id ctx1 = id ctx2 → k1 = k2) ∧
  (∀ k c' plan configuration size,
     Dispose_Wasm_Context k two_contexts = Ok ((), c') →
     ∃ c'', Create_Wasm_Context_For_ID k plan configuration size c'
              = Ok (k, c'') ∧
            deref k c'' = Some (WasmContext_new k plan configuration size) ∧
            reachable SizedTable c'').
Proof.
  split.
  - exact two_contexts_reachable.
  - exact (live_context_ids two_contexts two_contexts_reachable).
Defined.

Lemma registry_key_is_context_id_witness :
  reachable SizedTable two_contexts ∧
  two_contexts !! 5 = Some context_5 ∧
  id context_5 = 5 ∧
  Dispose_Wasm_Context_ctx context_5 two_contexts
    = Ok ((), delete 5 two_contexts) ∧
  delete 5 two_contexts !! 5 = None ∧
  (∀ j, j ≠ 5 → delete 5 two_contexts !! j = two_contexts !! j).
Proof.
  split; [exact two_contexts_reachable|].
  split; [reflexivity|].
  apply (registry_key_is_context_id (Table := SizedTable) two_contexts 5 context_5).
  - exact two_contexts_reachable.
  - reflexivity.
Defined.

Lemma default_size_and_heap_witness :
  (∅ : gmap N (WasmContext NoPlan SizedIndex)) !! 1 = None ∧
  ∃ ctx : WasmContext NoPlan SizedIndex,
    Create_Wasm_Context_For_ID_defaults 1 no_plan ∅ = Ok (1, <[1 := ctx]> ∅) ∧
    Ensure_Wasm_Context_For_ID_defaults 1 no_plan ∅
      = Ok ((1, true), <[1 := ctx]> ∅) ∧
    size (vm ctx) = 2 ^ 32 - 2 ^ 16 ∧
    heap ctx = 0.
Proof.
  split; [reflexivity|].
  apply (default_size_and_heap (IndexBase := SizedIndex) ∅ 1 no_plan).
  reflexivity.
Defined.

(** *** Where a claim as first stated fails *)

(** [Create] accepts the ID 0: a live context whose [id] is not positive. *)
Lemma context_with_id_zero :
  Create_Wasm_Context_For_ID 0 no_plan 0 WASM_MAX_MEMORY ∅
    = Ok (0, <[0 := context_0]> ∅) ∧
  reachable SizedTable (<[0 := context_0]> ∅) ∧
  (<[0 := context_0]> ∅ : gmap N _) !! 0 = Some context_0 ∧
  id context_0 = 0 ∧
  ¬ 0 < id context_0.
Proof.
  split; [reflexivity|]. split; [|split; [reflexivity|]].
  - eapply rtc_l; [|apply rtc_refl].
    eapply (step_Create 0 no_plan 0 WASM_MAX_MEMORY). reflexivity.
  - split; [reflexivity|]. cbn. lia.
Qed.

(** *** The further properties at concrete inputs *)

Lemma Create_then_Dispose_restores_witness :
  Has_Wasm_Context 7 two_contexts = false ∧
  (Create_Wasm_Context_For_ID 7 no_plan TRAP_GUARD_PAGES WASM_PAGE_SIZE;;
   Dispose_Wasm_Context 7) two_contexts = Ok ((), two_contexts).
Proof.
  split; [reflexivity|].
  apply (Create_then_Dispose_restores 7 no_plan TRAP_GUARD_PAGES
           WASM_PAGE_SIZE two_contexts).
  reflexivity.
Defined.

Lemma default_configuration_has_no_flag_witness :
  Has_Wasm_Context 7 two_contexts = false ∧
  ∃ ctx : WasmContext NoPlan SizedIndex,
    Create_Wasm_Context_For_ID_defaults 7 no_plan two_contexts
      = Ok (7, <[7 := ctx]> two_contexts) ∧
    Ensure_Wasm_Context_For_ID_defaults 7 no_plan two_contexts
      = Ok ((7, true), <[7 := ctx]> two_contexts) ∧
    (∀ cfg, config cfg ctx = false) ∧
    config TRAP_GUARD_PAGES ctx = false.
Proof.
  split; [reflexivity|].
  apply (default_configuration_has_no_flag two_contexts 7 no_plan).
  reflexivity.
Defined.

Lemma page_aligned_offsets_witness :
  (3 * WASM_PAGE_SIZE) `mod` WASM_PAGE_SIZE = 0 ∧
  (3 * WASM_PAGE_SIZE) `mod` WASM_ALIGNMENT = 0 ∧
  (3 * WASM_PAGE_SIZE < WASM_MAX_MEMORY →
     3 * WASM_PAGE_SIZE + WASM_PAGE_SIZE ≤ WASM_MAX_MEMORY ∧
     uint32_t (3 * WASM_PAGE_SIZE + WASM_PAGE_SIZE)
       = 3 * WASM_PAGE_SIZE + WASM_PAGE_SIZE).
Proof.
  split; [reflexivity|].
  apply (page_aligned_offsets (3 * WASM_PAGE_SIZE)). reflexivity.
Defined.

Lemma custom_pax_cells_do_not_overlap_witness :
  let layout := mkDataLayout 1000 (Some custom_pax_root) in
  create_custom_pax_layout = Some layout ∧
  DataLayout_resolve layout 1 255 = Some 110192 ∧
  DataLayout_stride_of layout 1 = Some 400 ∧
  DataLayout_resolve layout 4 0 = Some 110592 ∧
  DataLayout_stride_of layout 4 = Some 8 ∧
  (1, 255) ≠ (4, 0) ∧
  (110192 + 400 ≤ 110592 ∨ 110592 + 8 ≤ 110192).
Proof.
  cbv zeta.
  split; [exact create_custom_pax_layout_eq|].
  split; [reflexivity|]. split; [reflexivity|].
  split; [reflexivity|]. split; [reflexivity|].
  split; [by intros [=]|].
  apply (custom_pax_cells_do_not_overlap
           (mkDataLayout 1000 (Some custom_pax_root)) 1 255 110192 400
           4 0 110592 8).
  - exact create_custom_pax_layout_eq.
  - reflexivity.
  - reflexivity.
  - reflexivity.
  - reflexivity.
  - by intros [=].
Defined.

Lemma custom_pax_cells_stay_in_block_witness :
  let layout := mkDataLayout 1000 (Some custom_pax_root) in
  create_custom_pax_layout = Some layout ∧
  DataLayout_resolve layout 3 999 = Some 1708480 ∧
  DataLayout_stride_of layout 3 = Some 64 ∧
  block_offset 0 (64 * 1024 * 8) (outer_block 256 999) ≤ 1708480 ∧
  1708480 + 64 ≤ block_offset 0 (64 * 1024 * 8) (outer_block 256 999) + 137216 ∧
  1708480 + 64 ≤ block_offset 0 (64 * 1024 * 8) (outer_block 256 999 + 1) ∧
  (999 < num_tuples layout → 1708480 + 64 ≤ 4 * (64 * 1024 * 8)).
Proof.
  cbv zeta.
  split; [exact create_custom_pax_layout_eq|].
  split; [reflexivity|]. split; [reflexivity|].
  apply (custom_pax_cells_stay_in_block
           (mkDataLayout 1000 (Some custom_pax_root)) 3 999 1708480 64).
  - exact create_custom_pax_layout_eq.
  - reflexivity.
  - reflexivity.
Defined.

Lemma calls_on_different_ids_commute_witness :
  call_id (CallDispose (MatchBase := NoPlan) 5)
    ≠ call_id (CallCreate 7 no_plan 0 WASM_PAGE_SIZE) ∧
  final ((run_call (CallDispose 5);;
          run_call (CallCreate 7 no_plan 0 WASM_PAGE_SIZE)) two_contexts)
  = final ((run_call (CallCreate 7 no_plan 0 WASM_PAGE_SIZE);;
            run_call (CallDispose 5)) two_contexts).
Proof.
  split; [by intros [=]|].
  apply (calls_on_different_ids_commute (CallDispose 5)
           (CallCreate 7 no_plan 0 WASM_PAGE_SIZE) two_contexts).
  by intros [=].
Defined.
